(** * gpu_writer: a shallow embedding of [src/gpu_writer.rs]

    The crate assembles a heterogeneous chain of data blocks into one
    buffer: a header of [u32] word offsets (one per block, in append
    order) followed by the raw bytes of every block, in append order.

    Modelling conventions.
    - [usize] is 64 bits wide and held in [Z]; its [+] and [*] wrap
      modulo [2^64] (the behaviour of a release build; a debug build
      panics instead, and the two agree whenever nothing overflows).
    - A value of a [Pod] element type is held as its byte representation
      ([bytes_of]); [size_of::<T>()] is carried next to the data.
    - Native byte order is a parameter ([endian]) of the write functions.
    - [std::io::Write] is an abstract writer: a state type [W] and a
      [write_all] function returning [Ok ()] or an error.  Two concrete
      writers are modelled: [Vec<u8>] (never fails) and [&mut [u8]] /
      [Cursor<&mut [u8]>] over a buffer of fixed capacity. *)

From Stdlib Require Import ZArith List Lia Bool.
From Stdlib Require Import Strings.Byte.
Import ListNotations.
Open Scope Z_scope.

(** ** Rust primitives *)

Definition usize_modulus : Z := 2 ^ 64.

(** Wrapping [usize] arithmetic. *)
Definition usize_wrap (z : Z) : Z := z mod usize_modulus.
Definition usize_add (a b : Z) : Z := usize_wrap (a + b).
Definition usize_mul (a b : Z) : Z := usize_wrap (a * b).

(** [x as u32] for a [usize] value [x]: keeps the low 32 bits. *)
Definition u32_of_usize (x : Z) : Z := x mod 2 ^ 32.

(** [std::mem::size_of::<u32>()]. *)
Definition size_of_u32 : Z := 4.

(** Host byte order, used by [to_ne_bytes]. *)
Inductive endian := LittleEndian | BigEndian.

Definition byte_of_Z (z : Z) : byte :=
  match Byte.of_N (Z.to_N (z mod 256)) with
  | Some b => b
  | None => x00
  end.

Definition Z_of_byte (b : byte) : Z := Z.of_N (Byte.to_N b).

(** [u32::to_ne_bytes]. *)
Definition u32_to_ne_bytes (host : endian) (x : Z) : list byte :=
  let le := [byte_of_Z x; byte_of_Z (x / 2 ^ 8);
             byte_of_Z (x / 2 ^ 16); byte_of_Z (x / 2 ^ 24)] in
  match host with
  | LittleEndian => le
  | BigEndian => rev le
  end.

(** [u32::from_ne_bytes], used to read a header entry back. *)
Definition u32_from_ne_bytes (host : endian) (bs : list byte) : Z :=
  let le := match host with LittleEndian => bs | BigEndian => rev bs end in
  fold_right (fun b acc => Z_of_byte b + 2 ^ 8 * acc) 0 le.

(** [Result<T, E>]. *)
Inductive result (A E : Type) : Type :=
| Ok (a : A)
| Err (e : E).
Arguments Ok {A E} a.
Arguments Err {A E} e.

(** The effect of a function taking [writer: &mut W] and returning
    [Result<A, Error>]. *)
Definition M (E W A : Type) : Type := W -> result A E * W.

Definition ret {E W A : Type} (a : A) : M E W A := fun w => (Ok a, w).

(** The [?] operator: stop at the first error and return it unchanged. *)
Definition bind {E W A B : Type} (m : M E W A) (k : A -> M E W B) : M E W B :=
  fun w =>
    match m w with
    | (Ok a, w') => k a w'
    | (Err e, w') => (Err e, w')
    end.

Notation "m '?;' k" := (bind m (fun _ => k)) (at level 100, right associativity).

(** ** The data model *)

(** [pub struct GpuDataIter<T, I> { iter: I, size: usize }]: the iterator
    is held as the sequence of its items (each as [bytes_of] of the item);
    [clone] replays the same sequence. *)
Module GpuDataIter.
Record t := mk { iter : list (list byte); size : Z }.

(** [Iterator::count], a [usize]. *)
Definition count (it : list (list byte)) : Z := usize_wrap (Z.of_nat (length it)).

(** [impl From<I> for GpuDataIter<T, I>]: [size_of_T] is [size_of::<T>()]. *)
Definition from (size_of_T : Z) (it : list (list byte)) : t :=
  let sz := usize_mul size_of_T (count it) in
  {| iter := it; size := sz |}.
End GpuDataIter.

(** The implementors of [GpuData] in the crate: slices [&[T]],
    [GpuDataIter], and the tables [EmptyGpuTable] and [Cons] (a table is
    itself a [GpuData], so it may be appended as a block of another). *)
Inductive block : Type :=
| SliceB (size_of_T : Z) (elems : list (list byte))
| IterB (size_of_T : Z) (d : GpuDataIter.t)
| TableB (t : table)
with table : Type :=
| EmptyGpuTable
| Cons (head : block) (tail : table).

(** [append_gpu_data(gpu_table, gpu_data) = Cons(gpu_data, gpu_table)]. *)
Definition append_gpu_data (gpu_table : table) (gpu_data : block) : table :=
  Cons gpu_data gpu_table.

(** The [gpu_table!] macro: append each block in turn onto [EmptyGpuTable]. *)
Definition gpu_table (bs : list block) : table :=
  fold_left append_gpu_data bs EmptyGpuTable.

(** [GpuTable::DATA_COUNT]. *)
Fixpoint DATA_COUNT (t : table) : Z :=
  match t with
  | EmptyGpuTable => 0
  | Cons _ tl => DATA_COUNT tl + 1
  end.

(** [GpuData::size] and [GpuTable::data_size]. *)
Fixpoint size (b : block) : Z :=
  match b with
  | SliceB size_of_T elems => usize_mul size_of_T (Z.of_nat (length elems))
  | IterB _ d => GpuDataIter.size d
  | TableB t =>
      match t with
      | EmptyGpuTable => 0
      | Cons _ _ => usize_add (usize_mul size_of_u32 (DATA_COUNT t)) (data_size t)
      end
  end
with data_size (t : table) : Z :=
  match t with
  | EmptyGpuTable => 0
  | Cons head tail => usize_add (data_size tail) (size head)
  end.

(** [cast_slice] of a [&[T]] to [&[u8]]. *)
Definition cast_slice (elems : list (list byte)) : list byte := concat elems.

(** ** The write functions, over an abstract writer *)

Section Writer.
Context {E W : Type}.
Variable host : endian.
Variable write_all : list byte -> M E W unit.

(** [for data in self.iter { writer.write_all(bytes_of(&data))?; } Ok(())] *)
Fixpoint write_items (items : list (list byte)) : M E W unit :=
  match items with
  | [] => ret tt
  | data :: rest => write_all data ?; write_items rest
  end.

(** [GpuTable::write_header_into]. *)
Fixpoint write_header_into (t : table) (data_offset : Z) : M E W unit :=
  match t with
  | EmptyGpuTable => ret tt
  | Cons _ tail =>
      write_header_into tail data_offset ?;
      let offset := usize_add data_offset (data_size tail) in
      let offset4 := u32_of_usize (offset / size_of_u32) in
      write_all (u32_to_ne_bytes host offset4) ?;
      ret tt
  end.

(** [GpuData::write_into] and [GpuTable::write_data_into]. *)
Fixpoint write_into (b : block) : M E W unit :=
  match b with
  | SliceB _ elems => write_all (cast_slice elems) ?; ret tt
  | IterB _ d => write_items (GpuDataIter.iter d)
  | TableB t =>
      match t with
      | EmptyGpuTable => ret tt
      | Cons _ _ =>
          write_header_into t (usize_mul size_of_u32 (DATA_COUNT t)) ?;
          write_data_into t ?;
          ret tt
      end
  end
with write_data_into (t : table) : M E W unit :=
  match t with
  | EmptyGpuTable => ret tt
  | Cons head tail =>
      write_data_into tail ?;
      write_into head ?;
      ret tt
  end.

End Writer.

(** ** The writes a block issues, and the stop-at-first-failure runner *)

(** The sequence of [write_all] arguments issued by [write_header_into]
    when every write succeeds. *)
Fixpoint header_chunks (host : endian) (t : table) (data_offset : Z) : list (list byte) :=
  match t with
  | EmptyGpuTable => []
  | Cons _ tail =>
      header_chunks host tail data_offset
        ++ [u32_to_ne_bytes host
              (u32_of_usize (usize_add data_offset (data_size tail) / size_of_u32))]
  end.

(** The same for [write_into] and [write_data_into]. *)
Fixpoint block_chunks (host : endian) (b : block) : list (list byte) :=
  match b with
  | SliceB _ elems => [cast_slice elems]
  | IterB _ d => GpuDataIter.iter d
  | TableB t =>
      match t with
      | EmptyGpuTable => []
      | Cons _ _ =>
          header_chunks host t (usize_mul size_of_u32 (DATA_COUNT t)) ++ data_chunks host t
      end
  end
with data_chunks (host : endian) (t : table) : list (list byte) :=
  match t with
  | EmptyGpuTable => []
  | Cons head tail => data_chunks host tail ++ block_chunks host head
  end.

(** The error policy of the spec: issue the writes in order; the first
    failing write ends the run, and its error and the writer state it
    left are returned as they are. *)
Fixpoint stop_at_first_failure {E W : Type} (write_all : list byte -> M E W unit)
    (chunks : list (list byte)) (w : W) : result unit E * W :=
  match chunks with
  | [] => (Ok tt, w)
  | c :: rest =>
      match write_all c w with
      | (Ok _, w') => stop_at_first_failure write_all rest w'
      | (Err e, w') => (Err e, w')
      end
  end.

(** ** Concrete writers *)

Inductive io_error := WriteZero.

(** [impl Write for Vec<u8>]: appends, never fails. *)
Definition vec_write_all (bs : list byte) : M io_error (list byte) unit :=
  fun out => (Ok tt, out ++ bs).

(** [impl Write for &mut [u8]] (and [Cursor<&mut [u8]>]) over a buffer of
    [capacity] bytes, [written] being the bytes already stored.  [write]
    stores as much as fits; [write_all] then fails with [WriteZero] once
    the buffer is full and bytes remain. *)
Record slice_writer := mk_slice_writer { capacity : nat; written : list byte }.

Definition slice_write_all (bs : list byte) : M io_error slice_writer unit :=
  fun sw =>
    let room := (capacity sw - length (written sw))%nat in
    if (length bs <=? room)%nat
    then (Ok tt, mk_slice_writer (capacity sw) (written sw ++ bs))
    else (Err WriteZero, mk_slice_writer (capacity sw) (written sw ++ firstn room bs)).

(** The bytes a block writes on its own (into a fresh [Vec<u8>]). *)
Definition serialize (host : endian) (b : block) : list byte :=
  snd (write_into host vec_write_all b []).

(** The [i]-th header entry of a buffer, read back as a [u32]. *)
Definition header_entry (host : endian) (buf : list byte) (i : nat) : Z :=
  u32_from_ne_bytes host (firstn 4 (skipn (4 * i) buf)).

(** The blocks of a table, in append order. *)
Fixpoint blocks (t : table) : list block :=
  match t with
  | EmptyGpuTable => []
  | Cons head tail => blocks tail ++ [head]
  end.

Definition sum_Z (l : list Z) : Z := fold_right Z.add 0 l.

(** The word offset written for the [i]-th block of [bs]. *)
Definition word_offset (off : Z) (bs : list block) (i : nat) : Z :=
  (off + sum_Z (map size (firstn i bs))) / size_of_u32 mod 2 ^ 32.

(** Mutual induction over blocks and tables. *)
Scheme block_mut := Induction for block Sort Prop
  with table_mut := Induction for table Sort Prop.
Combined Scheme block_table_mut from block_mut, table_mut.

(** Well-formedness that the Rust types guarantee: every element of a
    slice or iterator of [T] has [size_of::<T>()] bytes, and the [size]
    field of a [GpuDataIter] is the one [from] computed. *)
Definition elems_have_size (size_of_T : Z) (elems : list (list byte)) : bool :=
  (0 <=? size_of_T) && forallb (fun e => Z.of_nat (length e) =? size_of_T) elems.

Fixpoint wf_block (b : block) : bool :=
  match b with
  | SliceB size_of_T elems => elems_have_size size_of_T elems
  | IterB size_of_T d =>
      elems_have_size size_of_T (GpuDataIter.iter d)
      && (GpuDataIter.size d =? GpuDataIter.size (GpuDataIter.from size_of_T (GpuDataIter.iter d)))
  | TableB t => wf_table t
  end
with wf_table (t : table) : bool :=
  match t with
  | EmptyGpuTable => true
  | Cons head tail => wf_block head && wf_table tail
  end.

(** The block's serialized form is shorter than [2^64] bytes, so that no
    [usize] sum or product computed for it overflows. *)
Definition fits_usize (host : endian) (b : block) : Prop :=
  Z.of_nat (length (serialize host b)) < usize_modulus.

(** Blocks of zero words that are never materialised in proofs. *)
Module Huge.
Definition zero_word : list byte := [x00; x00; x00; x00].
Definition zero_dword : list byte := repeat x00 8.

(** [GpuDataIter::<u32, _>::from((0..n).map(|_| 0u32))]. *)
Definition zero_words (n : nat) : block :=
  IterB 4 (GpuDataIter.from 4 (repeat zero_word n)).

(** [GpuDataIter::<u64, _>::from((0..n).map(|_| 0u64))]. *)
Definition zero_dwords (n : nat) : block :=
  IterB 8 (GpuDataIter.from 8 (repeat zero_dword n)).
End Huge.

(** ** The crate's unit test [test_gpu_writer] *)
Module CrateTest.
Definition u32_bytes (x : Z) : list byte := u32_to_ne_bytes LittleEndian x.
Definition x_items : list (list byte) := map u32_bytes [1; 2; 3].
(** [4.0f32, 5.0, 6.0, 7.0] as IEEE-754 bit patterns. *)
Definition y_elems : list (list byte) :=
  map u32_bytes [1082130432; 1084227584; 1086324736; 1088421888].
Definition z_items : list (list byte) := repeat (repeat x00 8) 2.
Definition blocks_list : list block :=
  [IterB 4 (GpuDataIter.from 4 x_items); SliceB 4 y_elems;
   IterB 8 (GpuDataIter.from 8 z_items)].
Definition table : table := gpu_table blocks_list.
Definition buffer : list byte :=
  written (snd (write_into LittleEndian slice_write_all (TableB table)
                  (mk_slice_writer (Z.to_nat (size (TableB table))) []))).

Example data_count_3 : DATA_COUNT table = 3. Proof. reflexivity. Qed.
Example data_size_44 : data_size table = 4 * (3 + 4 + 2 * 2). Proof. reflexivity. Qed.
Example size_56 : size (TableB table) = 4 * (3 + 3 + 4 + 2 * 2). Proof. reflexivity. Qed.
Example write_ok :
  fst (write_into LittleEndian slice_write_all (TableB table)
         (mk_slice_writer (Z.to_nat (size (TableB table))) [])) = Ok tt.
Proof. vm_compute. reflexivity. Qed.
Example header_3_6_10 :
  map (header_entry LittleEndian buffer) [0; 1; 2]%nat = [3; 6; 10].
Proof. vm_compute. reflexivity. Qed.
Example data_section :
  skipn 12 buffer = concat x_items ++ concat y_elems ++ concat z_items.
Proof. vm_compute. reflexivity. Qed.
End CrateTest.

(** ** Proofs *)

(** *** The code issues its writes with the stop-at-first-failure policy *)
Section Runner.
Context {E W : Type}.
Variable write_all : list byte -> M E W unit.

Lemma bind_ret_unit (m : M E W unit) w : bind m (fun _ => ret tt) w = m w.
Proof.
  unfold bind, ret. destruct (m w) as [[[] | e] w']; reflexivity.
Qed.

Lemma bind_ext {A B} (m m' : M E W A) (k k' : A -> M E W B) w :
  (forall w, m w = m' w) -> (forall a w, k a w = k' a w) ->
  bind m k w = bind m' k' w.
Proof.
  intros Hm Hk. unfold bind. rewrite Hm. destruct (m' w) as [[a | e] w']; auto.
Qed.

Lemma stop_app cs1 cs2 w :
  stop_at_first_failure write_all (cs1 ++ cs2) w
  = bind (stop_at_first_failure write_all cs1)
         (fun _ => stop_at_first_failure write_all cs2) w.
Proof.
  revert w. induction cs1 as [| c cs1 IH]; intros w; simpl.
  - reflexivity.
  - unfold bind at 1. destruct (write_all c w) as [[[] | e] w'].
    + rewrite IH. reflexivity.
    + reflexivity.
Qed.

Lemma write_items_stop items w :
  write_items write_all items w = stop_at_first_failure write_all items w.
Proof.
  revert w. induction items as [| c items IH]; intros w; simpl.
  - reflexivity.
  - unfold bind. destruct (write_all c w) as [[[] | e] w']; auto.
Qed.

Lemma write_header_stop host t off w :
  write_header_into host write_all t off w
  = stop_at_first_failure write_all (header_chunks host t off) w.
Proof.
  revert w. induction t as [| h tl IH]; intros w; simpl.
  - reflexivity.
  - rewrite stop_app. apply bind_ext; [exact IH |].
    intros _ w'. rewrite bind_ret_unit. simpl.
    destruct (write_all _ w') as [[[] | e] w'']; reflexivity.
Qed.

Lemma write_into_stop host :
  (forall b w, write_into host write_all b w
               = stop_at_first_failure write_all (block_chunks host b) w) /\
  (forall t w, write_data_into host write_all t w
               = stop_at_first_failure write_all (data_chunks host t) w).
Proof.
  apply block_table_mut.
  - intros s elems w. simpl. rewrite bind_ret_unit. simpl.
    destruct (write_all _ w) as [[[] | e] w']; reflexivity.
  - intros s d w. simpl. apply write_items_stop.
  - intros [| h tl] IH w; simpl.
    + reflexivity.
    + rewrite stop_app. apply bind_ext.
      * intros w'. exact (write_header_stop host (Cons h tl) _ w').
      * intros _ w'. rewrite bind_ret_unit. exact (IH w').
  - intros w. reflexivity.
  - intros h IHh tl IHtl w. simpl. rewrite stop_app. apply bind_ext; [exact IHtl |].
    intros _ w'. rewrite bind_ret_unit. apply IHh.
Qed.

End Runner.

(** *** The concrete writers *)

Lemma stop_vec cs out :
  stop_at_first_failure vec_write_all cs out = (Ok tt, out ++ concat cs).
Proof.
  revert out. induction cs as [| c cs IH]; intros out; simpl.
  - rewrite app_nil_r. reflexivity.
  - unfold vec_write_all at 1. rewrite IH, app_assoc. reflexivity.
Qed.

Lemma serialize_chunks host b : serialize host b = concat (block_chunks host b).
Proof.
  unfold serialize. rewrite (proj1 (write_into_stop vec_write_all host)), stop_vec.
  reflexivity.
Qed.

(** A successful run has stored exactly the issued bytes. *)
Lemma stop_slice_ok cs sw sw' :
  stop_at_first_failure slice_write_all cs sw = (Ok tt, sw') ->
  sw' = mk_slice_writer (capacity sw) (written sw ++ concat cs).
Proof.
  revert sw. induction cs as [| c cs IH]; intros [cap out] H; simpl in *.
  - inversion H. rewrite app_nil_r. reflexivity.
  - unfold slice_write_all at 1 in H. simpl in H.
    destruct (length c <=? cap - length out)%nat; [| discriminate].
    apply IH in H. rewrite H. simpl. rewrite app_assoc. reflexivity.
Qed.

(** The run succeeds exactly when the issued bytes fit in the buffer. *)
Lemma stop_slice_fits cs cap out :
  (length out + length (concat cs) <= cap)%nat ->
  stop_at_first_failure slice_write_all cs (mk_slice_writer cap out)
  = (Ok tt, mk_slice_writer cap (out ++ concat cs)).
Proof.
  revert out. induction cs as [| c cs IH]; intros out H; simpl in *.
  - rewrite app_nil_r. reflexivity.
  - rewrite length_app in H. unfold slice_write_all at 1. simpl.
    replace (length c <=? cap - length out)%nat with true
      by (symmetry; apply Nat.leb_le; lia).
    rewrite IH by (rewrite length_app; lia). rewrite app_assoc. reflexivity.
Qed.

Lemma stop_slice_overflow cs cap out :
  (length out <= cap)%nat ->
  (cap < length out + length (concat cs))%nat ->
  fst (stop_at_first_failure slice_write_all cs (mk_slice_writer cap out)) = Err WriteZero.
Proof.
  revert out. induction cs as [| c cs IH]; intros out H1 H2; simpl in *.
  - lia.
  - rewrite length_app in H2. unfold slice_write_all at 1. simpl.
    destruct (Nat.leb_spec (length c) (cap - length out)).
    + apply IH; rewrite ?length_app; lia.
    + reflexivity.
Qed.

(** *** Lists *)

Lemma sum_Z_app l1 l2 : sum_Z (l1 ++ l2) = sum_Z l1 + sum_Z l2.
Proof. induction l1 as [| x l1 IH]; simpl; lia. Qed.

Lemma blocks_fold bs t0 :
  blocks (fold_left append_gpu_data bs t0) = blocks t0 ++ bs.
Proof.
  revert t0. induction bs as [| b bs IH]; intros t0; simpl.
  - rewrite app_nil_r. reflexivity.
  - rewrite IH. simpl. rewrite <- app_assoc. reflexivity.
Qed.

Lemma blocks_gpu_table bs : blocks (gpu_table bs) = bs.
Proof. unfold gpu_table. rewrite blocks_fold. reflexivity. Qed.

Lemma DATA_COUNT_blocks t : DATA_COUNT t = Z.of_nat (length (blocks t)).
Proof.
  induction t as [| h tl IH]; simpl; [reflexivity |].
  rewrite length_app. simpl. lia.
Qed.

Lemma data_chunks_blocks host t :
  concat (data_chunks host t) = concat (map (serialize host) (blocks t)).
Proof.
  induction t as [| h tl IH]; simpl; [reflexivity |].
  rewrite map_app, !concat_app, IH. simpl. rewrite app_nil_r, serialize_chunks.
  reflexivity.
Qed.

Lemma u32_to_ne_bytes_length host x : length (u32_to_ne_bytes host x) = 4%nat.
Proof. destruct host; reflexivity. Qed.

Lemma header_chunks_length host t off :
  length (concat (header_chunks host t off)) = (4 * length (blocks t))%nat.
Proof.
  induction t as [| h tl IH]; simpl; [reflexivity |].
  rewrite concat_app, !length_app, IH. simpl.
  rewrite app_nil_r, u32_to_ne_bytes_length. lia.
Qed.

(** *** Header arithmetic *)

Lemma data_size_sum t : data_size t = sum_Z (map size (blocks t)) mod usize_modulus.
Proof.
  induction t as [| h tl IH]; simpl; [reflexivity |].
  rewrite map_app, sum_Z_app. simpl. unfold usize_add, usize_wrap.
  rewrite IH, Zplus_mod_idemp_l. f_equal. lia.
Qed.

(** Reducing modulo [2^64] before the word division does not change the
    low 32 bits of the word offset. *)
Lemma word_offset_usize_wrap x :
  (x mod usize_modulus) / size_of_u32 mod 2 ^ 32 = x / size_of_u32 mod 2 ^ 32.
Proof.
  unfold usize_modulus, size_of_u32.
  rewrite (Z.div_mod x (2 ^ 64)) at 2 by lia.
  replace (2 ^ 64 * (x / 2 ^ 64) + x mod 2 ^ 64)
    with (x mod 2 ^ 64 + (2 ^ 62 * (x / 2 ^ 64)) * 4) by lia.
  rewrite Z.div_add by lia.
  replace (2 ^ 62 * (x / 2 ^ 64)) with ((2 ^ 30 * (x / 2 ^ 64)) * 2 ^ 32) by lia.
  rewrite Z.mod_add by lia. reflexivity.
Qed.

Lemma header_chunks_offsets host t off :
  header_chunks host t (usize_wrap off)
  = map (fun i => u32_to_ne_bytes host (word_offset off (blocks t) i))
        (seq 0 (length (blocks t))).
Proof.
  induction t as [| h tl IH]; [reflexivity |].
  cbn [header_chunks blocks]. rewrite IH, length_app. simpl.
  rewrite seq_app, map_app. simpl. f_equal.
  - apply map_ext_in. intros i Hi. apply in_seq in Hi.
    unfold word_offset. rewrite firstn_app.
    replace (i - length (blocks tl))%nat with 0%nat by lia.
    simpl. rewrite app_nil_r. reflexivity.
  - f_equal. f_equal. unfold word_offset, u32_of_usize, usize_add.
    rewrite firstn_app, Nat.sub_diag, firstn_all, firstn_O, app_nil_r.
    unfold usize_wrap at 1. rewrite word_offset_usize_wrap, data_size_sum.
    unfold usize_wrap. rewrite <- (word_offset_usize_wrap (off mod _ + _)).
    rewrite <- Zplus_mod, word_offset_usize_wrap. reflexivity.
Qed.

(** *** Reading a [u32] back *)

Lemma mod_mul_split a b c :
  0 < b -> 0 < c -> a mod (b * c) = a mod b + b * ((a / b) mod c).
Proof.
  intros Hb Hc. symmetry. apply Z.mod_unique with (q := a / b / c).
  - left. pose proof (Z.mod_pos_bound a b Hb). pose proof (Z.mod_pos_bound (a / b) c Hc).
    split; [lia |].
    assert (b * ((a / b) mod c) <= b * (c - 1)) by (apply Z.mul_le_mono_nonneg_l; lia).
    lia.
  - rewrite (Z.div_mod a b) at 1 by lia. rewrite (Z.div_mod (a / b) c) at 1 by lia. ring.
Qed.

Lemma Z_of_byte_of_Z z : Z_of_byte (byte_of_Z z) = z mod 256.
Proof.
  unfold Z_of_byte, byte_of_Z.
  assert (Hr : 0 <= z mod 256 < 256) by (apply Z.mod_pos_bound; lia).
  destruct (Byte.of_N (Z.to_N (z mod 256))) as [b |] eqn:Hb.
  - apply Byte.to_of_N in Hb. rewrite Hb. apply Z2N.id. lia.
  - apply Byte.of_N_None_iff in Hb. lia.
Qed.

Lemma u32_roundtrip host x : u32_from_ne_bytes host (u32_to_ne_bytes host x) = x mod 2 ^ 32.
Proof.
  assert (Hle : fold_right (fun b acc => Z_of_byte b + 2 ^ 8 * acc) 0
                  [byte_of_Z x; byte_of_Z (x / 2 ^ 8);
                   byte_of_Z (x / 2 ^ 16); byte_of_Z (x / 2 ^ 24)] = x mod 2 ^ 32).
  { cbn [fold_right]. rewrite !Z_of_byte_of_Z.
    change (2 ^ 32) with (256 * (256 * (256 * 256))).
    change (2 ^ 8) with 256. change (2 ^ 16) with (256 * 256).
    change (2 ^ 24) with (256 * 256 * 256).
    rewrite !mod_mul_split by lia. rewrite !Z.div_div by lia.
    change (256 * (256 * 256)) with (256 * 256 * 256). lia. }
  unfold u32_from_ne_bytes, u32_to_ne_bytes.
  destruct host; [exact Hle |]. rewrite rev_involutive. exact Hle.
Qed.

Lemma header_entry_app host entries rest i :
  (i < length entries)%nat ->
  header_entry host (concat (map (u32_to_ne_bytes host) entries) ++ rest) i
  = nth i entries 0 mod 2 ^ 32.
Proof.
  unfold header_entry. revert i. induction entries as [| x entries IH]; intros i Hi.
  - simpl in Hi. lia.
  - destruct i as [| i].
    + rewrite Nat.mul_0_r. cbn [skipn map concat nth].
      rewrite <- app_assoc, firstn_app, u32_to_ne_bytes_length, Nat.sub_diag, firstn_O,
        app_nil_r, firstn_all2 by (rewrite u32_to_ne_bytes_length; lia).
      apply u32_roundtrip.
    + cbn [map concat nth length] in *. rewrite <- app_assoc.
      replace (4 * S i)%nat with (4 * i + 4)%nat by lia.
      rewrite <- skipn_skipn.
      rewrite skipn_app, u32_to_ne_bytes_length, Nat.sub_diag,
        (skipn_all2 (u32_to_ne_bytes host x)) by (rewrite u32_to_ne_bytes_length; lia).
      cbn [skipn app]. apply IH. lia.
Qed.

(** *** What a table writes *)

Lemma block_chunks_table host t :
  concat (block_chunks host (TableB t))
  = concat (header_chunks host t (usize_mul size_of_u32 (DATA_COUNT t)))
      ++ concat (data_chunks host t).
Proof. destruct t; [reflexivity | apply concat_app]. Qed.

Lemma serialize_table host t :
  serialize host (TableB t)
  = concat (header_chunks host t (usize_mul size_of_u32 (DATA_COUNT t)))
      ++ concat (map (serialize host) (blocks t)).
Proof. rewrite serialize_chunks, block_chunks_table, data_chunks_blocks. reflexivity. Qed.

(** A successful write into a buffer stores what the table serializes to. *)
Lemma written_table host t cap sw :
  write_into host slice_write_all (TableB t) (mk_slice_writer cap []) = (Ok tt, sw) ->
  written sw = serialize host (TableB t).
Proof.
  intros H. rewrite (proj1 (write_into_stop slice_write_all host)) in H.
  apply stop_slice_ok in H. subst sw. simpl. rewrite serialize_chunks. reflexivity.
Qed.

Lemma header_entries_of host t rest i :
  (i < length (blocks t))%nat ->
  header_entry host
    (concat (header_chunks host t (usize_mul size_of_u32 (DATA_COUNT t))) ++ rest) i
  = (size_of_u32 * Z.of_nat (length (blocks t))
     + sum_Z (map size (firstn i (blocks t)))) / size_of_u32 mod 2 ^ 32.
Proof.
  intros Hi. unfold usize_mul. rewrite DATA_COUNT_blocks, header_chunks_offsets.
  rewrite <- (map_map (word_offset _ (blocks t)) (u32_to_ne_bytes host)).
  rewrite header_entry_app by (rewrite length_map, length_seq; exact Hi).
  rewrite (nth_indep _ 0 (word_offset (size_of_u32 * Z.of_nat (length (blocks t))) (blocks t) 0))
    by (rewrite length_map, length_seq; exact Hi).
  rewrite map_nth, seq_nth by exact Hi. unfold word_offset. apply Z.mod_mod. lia.
Qed.

Lemma header_entries_serialize host t i :
  (i < length (blocks t))%nat ->
  header_entry host (serialize host (TableB t)) i
  = (size_of_u32 * Z.of_nat (length (blocks t))
     + sum_Z (map size (firstn i (blocks t)))) / size_of_u32 mod 2 ^ 32.
Proof. intros Hi. rewrite serialize_table. apply header_entries_of, Hi. Qed.

Lemma stop_err {E W} (write_all : list byte -> M E W unit) cs w e w' :
  stop_at_first_failure write_all cs w = (Err e, w') ->
  exists pre c post w1,
    cs = pre ++ c :: post /\
    stop_at_first_failure write_all pre w = (Ok tt, w1) /\
    write_all c w1 = (Err e, w').
Proof.
  revert w. induction cs as [| c cs IH]; intros w H; simpl in H; [discriminate |].
  destruct (write_all c w) as [[[] | e'] w1] eqn:Hc.
  - destruct (IH _ H) as (pre & c' & post & w2 & -> & Hpre & Hc').
    exists (c :: pre), c', post, w2. simpl. rewrite Hc. auto.
  - inversion H; subst. exists [], c, cs, w. auto.
Qed.

(** A failing write ends the run with its error and its writer state. *)
Lemma stop_first_err {E W} (write_all : list byte -> M E W unit) pre c post w w1 e w2 :
  stop_at_first_failure write_all pre w = (Ok tt, w1) ->
  write_all c w1 = (Err e, w2) ->
  stop_at_first_failure write_all (pre ++ c :: post) w = (Err e, w2).
Proof.
  revert w. induction pre as [| c0 pre IH]; intros w Hpre Hc; simpl in *.
  - inversion Hpre; subst. rewrite Hc. reflexivity.
  - destruct (write_all c0 w) as [[[] | e0] w0]; [exact (IH w0 Hpre Hc) | discriminate].
Qed.

Lemma block_chunks_table_split host t :
  block_chunks host (TableB t)
  = header_chunks host t (usize_mul size_of_u32 (DATA_COUNT t)) ++ data_chunks host t.
Proof. destruct t; reflexivity. Qed.

Lemma DATA_COUNT_fold bs t0 :
  DATA_COUNT (fold_left append_gpu_data bs t0) = DATA_COUNT t0 + Z.of_nat (length bs).
Proof.
  revert t0. induction bs as [| b bs IH]; intros t0; simpl; [lia |].
  rewrite IH. simpl. lia.
Qed.

(** *** Chains with a block of [2^32] words, written without materialising it *)
Module HugeFacts.
Import Huge.

Lemma size_zero_words n : size (zero_words n) = usize_mul 4 (usize_wrap (Z.of_nat n)).
Proof. unfold zero_words. cbn [size]. unfold GpuDataIter.from, GpuDataIter.count.
  cbn [GpuDataIter.size]. rewrite repeat_length. reflexivity. Qed.

Lemma size_zero_dwords n : size (zero_dwords n) = usize_mul 8 (usize_wrap (Z.of_nat n)).
Proof. unfold zero_dwords. cbn [size]. unfold GpuDataIter.from, GpuDataIter.count.
  cbn [GpuDataIter.size]. rewrite repeat_length. reflexivity. Qed.

Lemma concat_repeat_length (l : list byte) n : length (concat (repeat l n)) = (n * length l)%nat.
Proof. induction n as [| n IH]; simpl; [reflexivity |]. rewrite length_app, IH. reflexivity. Qed.

Lemma forallb_repeat {A} (f : A -> bool) x n : f x = true -> forallb f (repeat x n) = true.
Proof. intros H. induction n as [| n IH]; simpl; [reflexivity |]. rewrite H, IH. reflexivity. Qed.

(** The table holding only [zero_dwords n] serializes to [4 + 8 * n] bytes. *)
Lemma serialize_dwords_table host n :
  length (serialize host (TableB (gpu_table [zero_dwords n]))) = (4 + 8 * n)%nat.
Proof.
  rewrite serialize_table, length_app, header_chunks_length, blocks_gpu_table.
  cbn [map concat length]. rewrite app_nil_r, serialize_chunks.
  unfold zero_dwords. cbn [block_chunks GpuDataIter.from GpuDataIter.iter].
  rewrite concat_repeat_length. unfold zero_dword. rewrite repeat_length. lia.
Qed.

Lemma data_size_dwords_table n :
  data_size (gpu_table [zero_dwords n]) = usize_wrap (0 + usize_mul 8 (usize_wrap (Z.of_nat n))).
Proof. cbn [gpu_table fold_left append_gpu_data data_size]. rewrite size_zero_dwords. reflexivity. Qed.
End HugeFacts.

(** A successful write into a buffer of exactly the serialized length. *)
Lemma write_exact_capacity host t :
  let cap := length (serialize host (TableB t)) in
  write_into host slice_write_all (TableB t) (mk_slice_writer cap [])
  = (Ok tt, mk_slice_writer cap (serialize host (TableB t))).
Proof.
  cbv zeta. rewrite (proj1 (write_into_stop slice_write_all host)), stop_slice_fits.
  - rewrite serialize_chunks. reflexivity.
  - rewrite serialize_chunks. exact (Nat.le_refl _).
Qed.


(** *** Sizes agree with the serialized lengths when nothing overflows *)

Lemma concat_length_uniform s (elems : list (list byte)) :
  forallb (fun e => Z.of_nat (length e) =? s) elems = true ->
  Z.of_nat (length (concat elems)) = s * Z.of_nat (length elems).
Proof.
  induction elems as [| e elems IH]; intros H; simpl in *; [lia |].
  apply andb_prop in H as [He H]. apply Z.eqb_eq in He.
  rewrite length_app, Nat2Z.inj_add, IH by exact H. lia.
Qed.

Lemma elems_length s elems :
  elems_have_size s elems = true ->
  Z.of_nat (length (concat elems)) = s * Z.of_nat (length elems).
Proof.
  unfold elems_have_size. intros H. apply andb_prop in H as [_ H].
  exact (concat_length_uniform _ _ H).
Qed.

Lemma usize_wrap_small z : 0 <= z < usize_modulus -> usize_wrap z = z.
Proof. intros H. unfold usize_wrap. apply Z.mod_small, H. Qed.

Lemma usize_modulus_pos : 0 < usize_modulus.
Proof. reflexivity. Qed.

Lemma slice_size_exact s elems :
  elems_have_size s elems = true ->
  s * Z.of_nat (length elems) < usize_modulus ->
  size (SliceB s elems) = s * Z.of_nat (length elems)
  /\ Z.of_nat (length (concat elems)) = s * Z.of_nat (length elems).
Proof.
  intros Hwf Hlt. unfold elems_have_size in Hwf.
  apply andb_prop in Hwf as [Hs Hwf]. apply Z.leb_le in Hs.
  split; [| exact (concat_length_uniform _ _ Hwf)].
  cbn [size]. unfold usize_mul. apply usize_wrap_small. nia.
Qed.

Lemma iter_size_exact s items :
  elems_have_size s items = true ->
  s * Z.of_nat (length items) < usize_modulus ->
  GpuDataIter.size (GpuDataIter.from s items) = s * Z.of_nat (length items)
  /\ Z.of_nat (length (concat items)) = s * Z.of_nat (length items).
Proof.
  intros Hwf Hlt. unfold elems_have_size in Hwf.
  apply andb_prop in Hwf as [Hs Hwf]. apply Z.leb_le in Hs.
  split; [| exact (concat_length_uniform _ _ Hwf)].
  unfold GpuDataIter.from, GpuDataIter.count. cbn [GpuDataIter.size].
  destruct (Z.eq_dec s 0) as [-> | Hs0].
  - reflexivity.
  - rewrite (usize_wrap_small (Z.of_nat (length items))) by nia.
    unfold usize_mul. apply usize_wrap_small. nia.
Qed.

Lemma size_exact host :
  (forall b, wf_block b = true -> fits_usize host b ->
     size b = Z.of_nat (length (serialize host b))) /\
  (forall t, wf_table t = true ->
     Z.of_nat (length (concat (data_chunks host t))) < usize_modulus ->
     data_size t = Z.of_nat (length (concat (data_chunks host t)))).
Proof.
  unfold fits_usize. apply block_table_mut.
  - intros s elems Hwf Hfit. rewrite serialize_chunks in *. cbn [block_chunks concat] in *.
    rewrite app_nil_r in *. unfold cast_slice in *.
    pose proof (elems_length s elems Hwf) as Hl.
    rewrite Hl in *. apply (slice_size_exact s elems Hwf). lia.
  - intros s d Hwf Hfit. rewrite serialize_chunks in *. cbn [block_chunks] in *.
    cbn [wf_block] in Hwf. apply andb_prop in Hwf as [Hwf Hsz]. apply Z.eqb_eq in Hsz.
    pose proof (elems_length s _ Hwf) as Hl. rewrite Hl in Hfit.
    cbn [size]. rewrite Hsz, Hl. apply (iter_size_exact s _ Hwf). lia.
  - intros t IH Hwf Hfit. rewrite serialize_table, <- data_chunks_blocks in *.
    rewrite length_app, header_chunks_length in *.
    destruct t as [| h tl]; [reflexivity |].
    cbn [size]. rewrite IH by (exact Hwf || lia).
    unfold usize_add, usize_mul. rewrite DATA_COUNT_blocks.
    rewrite (usize_wrap_small (size_of_u32 * _)) by (unfold size_of_u32; lia).
    rewrite usize_wrap_small; unfold size_of_u32; lia.
  - intros _ _. reflexivity.
  - intros h IHh tl IHtl Hwf Hfit. cbn [wf_table] in Hwf. apply andb_prop in Hwf as [Hh Htl].
    cbn [data_chunks] in *. rewrite concat_app, length_app in *.
    cbn [data_size]. unfold usize_add.
    rewrite IHtl by (exact Htl || lia).
    rewrite IHh by (exact Hh || (rewrite serialize_chunks; lia)).
    rewrite serialize_chunks, usize_wrap_small; lia.
Qed.

Lemma data_size_exact host t :
  wf_table t = true -> fits_usize host (TableB t) ->
  data_size t = Z.of_nat (length (concat (map (serialize host) (blocks t)))).
Proof.
  intros Hwf Hfit. unfold fits_usize in Hfit.
  rewrite serialize_table, length_app, <- data_chunks_blocks in Hfit.
  rewrite <- data_chunks_blocks. apply (proj2 (size_exact host)); [exact Hwf | lia].
Qed.

(** The byte count of a table when nothing overflows. *)
Lemma table_size_exact host t :
  wf_table t = true -> fits_usize host (TableB t) ->
  size (TableB t) = 4 * DATA_COUNT t + data_size t /\
  Z.of_nat (length (serialize host (TableB t))) = 4 * DATA_COUNT t + data_size t.
Proof.
  intros Hwf Hfit.
  assert (Hl : Z.of_nat (length (serialize host (TableB t))) = 4 * DATA_COUNT t + data_size t).
  { rewrite (data_size_exact host t Hwf Hfit), DATA_COUNT_blocks, serialize_table,
      length_app, header_chunks_length. lia. }
  split; [| exact Hl]. rewrite <- Hl. apply (proj1 (size_exact host)); assumption.
Qed.

Lemma sum_sizes_exact host t :
  wf_table t = true ->
  Z.of_nat (length (concat (map (serialize host) (blocks t)))) < usize_modulus ->
  sum_Z (map size (blocks t)) = Z.of_nat (length (concat (map (serialize host) (blocks t)))).
Proof.
  induction t as [| h tl IH]; intros Hwf Hfit; [reflexivity |].
  cbn [wf_table blocks] in *. apply andb_prop in Hwf as [Hh Htl].
  rewrite !map_app, sum_Z_app, concat_app, length_app, Nat2Z.inj_add in *.
  cbn [map sum_Z fold_right concat] in *. rewrite app_nil_r in *.
  rewrite (proj1 (size_exact host) h Hh) by (unfold fits_usize; lia).
  rewrite IH by (exact Htl || lia). lia.
Qed.

Lemma data_size_sum_exact host t :
  wf_table t = true -> fits_usize host (TableB t) ->
  data_size t = sum_Z (map size (blocks t)).
Proof.
  intros Hwf Hfit. unfold fits_usize in Hfit.
  rewrite serialize_table, length_app in Hfit.
  rewrite data_size_sum, (sum_sizes_exact host) by (exact Hwf || lia).
  apply Z.mod_small. lia.
Qed.

(** ** The claims *)

(** C1 (amended). For a chain built by appending [B0 .. B(N-1)] onto
    [EmptyGpuTable], a successful [write_into] into a buffer starts with
    the header, and its [i]-th entry read back is
    [((4*N + size B0 + ... + size B(i-1)) / 4) mod 2^32]: the word offset,
    narrowed to [u32]. *)
Theorem header_order host bs cap sw :
  write_into host slice_write_all (TableB (gpu_table bs)) (mk_slice_writer cap []) = (Ok tt, sw) ->
  forall i, (i < length bs)%nat ->
  header_entry host (written sw) i
  = (4 * Z.of_nat (length bs) + sum_Z (map size (firstn i bs))) / 4 mod 2 ^ 32.
Proof.
  intros H i Hi. apply written_table in H. rewrite H.
  pose proof (header_entries_serialize host (gpu_table bs) i) as He.
  rewrite blocks_gpu_table in He. exact (He Hi).
Qed.

Lemma header_order_witness :
  let sw := snd (write_into LittleEndian slice_write_all (TableB (gpu_table CrateTest.blocks_list))
                   (mk_slice_writer 56 [])) in
  write_into LittleEndian slice_write_all (TableB (gpu_table CrateTest.blocks_list))
    (mk_slice_writer 56 []) = (Ok tt, sw) /\
  header_entry LittleEndian (written sw) 2
  = (4 * 3 + sum_Z (map size (firstn 2 CrateTest.blocks_list))) / 4 mod 2 ^ 32.
Proof.
  intros sw.
  assert (H : write_into LittleEndian slice_write_all (TableB (gpu_table CrateTest.blocks_list))
                (mk_slice_writer 56 []) = (Ok tt, sw)) by (vm_compute; reflexivity).
  split; [exact H |].
  exact (header_order LittleEndian CrateTest.blocks_list 56 sw H 2 ltac:(vm_compute; lia)).
Defined.

(** C1 as stated fails: after a block of [2^32] words the word offset of
    the next block is [2^32 + 2], and the [u32] header entry holds [2]. *)
Lemma header_order_counterexample :
  ~ (forall host bs cap sw,
       write_into host slice_write_all (TableB (gpu_table bs)) (mk_slice_writer cap [])
       = (Ok tt, sw) ->
       forall i, (i < length bs)%nat ->
       header_entry host (written sw) i
       = (4 * Z.of_nat (length bs) + sum_Z (map size (firstn i bs))) / 4).
Proof.
  intros H.
  pose proof (Z2Nat.id (2 ^ 32) ltac:(lia)) as Hn. revert Hn.
  generalize (Z.to_nat (2 ^ 32)). intros n Hn.
  set (bs := [Huge.zero_words n; SliceB 4 []]).
  specialize (H LittleEndian bs _ _ (write_exact_capacity LittleEndian (gpu_table bs)) 1%nat
                ltac:(cbn; lia)).
  cbn [written] in H. rewrite header_entries_serialize in H
    by (rewrite blocks_gpu_table; cbn; lia).
  rewrite blocks_gpu_table in H. subst bs.
  cbn [firstn map sum_Z fold_right length] in H.
  rewrite HugeFacts.size_zero_words, Hn in H. vm_compute in H. discriminate H.
Qed.

(** C2. For a chain built by appending [B0 .. B(N-1)], a successful
    [write_into] into a buffer stores a [4*N]-byte header followed by
    exactly the bytes of [B0], then of [B1], ..., then of [B(N-1)]. *)
Theorem data_order host bs cap sw :
  write_into host slice_write_all (TableB (gpu_table bs)) (mk_slice_writer cap []) = (Ok tt, sw) ->
  exists header,
    length header = (4 * length bs)%nat /\
    written sw = header ++ concat (map (serialize host) bs).
Proof.
  intros H. apply written_table in H. rewrite H, serialize_table, blocks_gpu_table.
  eexists. split; [| reflexivity].
  rewrite header_chunks_length, blocks_gpu_table. reflexivity.
Qed.

Lemma data_order_witness :
  let sw := snd (write_into LittleEndian slice_write_all (TableB (gpu_table CrateTest.blocks_list))
                   (mk_slice_writer 56 [])) in
  write_into LittleEndian slice_write_all (TableB (gpu_table CrateTest.blocks_list))
    (mk_slice_writer 56 []) = (Ok tt, sw) /\
  exists header,
    length header = (4 * 3)%nat /\
    written sw = header ++ concat (map (serialize LittleEndian) CrateTest.blocks_list).
Proof.
  intros sw.
  assert (H : write_into LittleEndian slice_write_all (TableB (gpu_table CrateTest.blocks_list))
                (mk_slice_writer 56 []) = (Ok tt, sw)) by (vm_compute; reflexivity).
  split; [exact H |].
  exact (data_order LittleEndian CrateTest.blocks_list 56 sw H).
Defined.

(** C4. [DATA_COUNT] after [N] appends onto [EmptyGpuTable] is [N]; the
    empty table counts [0] and a [Cons] node one more than its tail. *)
Theorem count_invariant :
  (forall bs, DATA_COUNT (gpu_table bs) = Z.of_nat (length bs)) /\
  DATA_COUNT EmptyGpuTable = 0 /\
  (forall head tail, DATA_COUNT (append_gpu_data tail head) = DATA_COUNT tail + 1).
Proof.
  split; [| split; reflexivity].
  intros bs. unfold gpu_table. rewrite DATA_COUNT_fold. reflexivity.
Qed.

(** C6. [write_into] of a chain issues the writes [block_chunks] (header
    entries, then data) in order through the writer, and stops at the
    first one that fails: if the writes before some write [c] succeed and
    [c] fails with [e], then [write_into] returns [Err e] unchanged, with
    the writer exactly as [c] left it (no later write, no rollback).
    Conversely every error [write_into] returns arises this way. *)
Theorem error_propagation {E W : Type} (write_all : list byte -> M E W unit) host t w :
  write_into host write_all (TableB t) w
  = stop_at_first_failure write_all (block_chunks host (TableB t)) w /\
  (forall pre c post w1 e w2,
     block_chunks host (TableB t) = pre ++ c :: post ->
     stop_at_first_failure write_all pre w = (Ok tt, w1) ->
     write_all c w1 = (Err e, w2) ->
     write_into host write_all (TableB t) w = (Err e, w2)) /\
  (forall e, fst (write_into host write_all (TableB t) w) = Err e ->
   exists pre c post w1,
     block_chunks host (TableB t) = pre ++ c :: post /\
     stop_at_first_failure write_all pre w = (Ok tt, w1) /\
     write_all c w1 = (Err e, snd (write_into host write_all (TableB t) w))).
Proof.
  pose proof (proj1 (write_into_stop write_all host) (TableB t) w) as Hrun.
  split; [exact Hrun | split].
  - intros pre c post w1 e w2 Hcs Hpre Hc. rewrite Hrun, Hcs.
    exact (stop_first_err write_all pre c post w w1 e w2 Hpre Hc).
  - intros e H. rewrite Hrun in *.
    destruct (stop_at_first_failure write_all (block_chunks host (TableB t)) w)
      as [r w'] eqn:Hr.
    simpl in H |- *. subst r. exact (stop_err write_all _ _ _ _ Hr).
Qed.

Lemma error_propagation_witness :
  block_chunks LittleEndian (TableB (gpu_table [SliceB 1 [[x07]]]))
  = [[x01; x00; x00; x00]] ++ [x07] :: [] /\
  stop_at_first_failure slice_write_all [[x01; x00; x00; x00]] (mk_slice_writer 4 [])
  = (Ok tt, mk_slice_writer 4 [x01; x00; x00; x00]) /\
  slice_write_all [x07] (mk_slice_writer 4 [x01; x00; x00; x00])
  = (Err WriteZero, mk_slice_writer 4 [x01; x00; x00; x00]) /\
  write_into LittleEndian slice_write_all (TableB (gpu_table [SliceB 1 [[x07]]]))
    (mk_slice_writer 4 [])
  = (Err WriteZero, mk_slice_writer 4 [x01; x00; x00; x00]).
Proof.
  assert (H1 : block_chunks LittleEndian (TableB (gpu_table [SliceB 1 [[x07]]]))
               = [[x01; x00; x00; x00]] ++ [x07] :: []) by (vm_compute; reflexivity).
  assert (H2 : stop_at_first_failure slice_write_all [[x01; x00; x00; x00]]
                 (mk_slice_writer 4 [])
               = (Ok tt, mk_slice_writer 4 [x01; x00; x00; x00])) by (vm_compute; reflexivity).
  assert (H3 : slice_write_all [x07] (mk_slice_writer 4 [x01; x00; x00; x00])
               = (Err WriteZero, mk_slice_writer 4 [x01; x00; x00; x00]))
    by (vm_compute; reflexivity).
  split; [exact H1 | split; [exact H2 | split; [exact H3 |]]].
  exact (proj1 (proj2 (error_propagation slice_write_all LittleEndian
                         (gpu_table [SliceB 1 [[x07]]]) (mk_slice_writer 4 [])))
           _ _ _ _ _ _ H1 H2 H3).
Defined.

(** C9 (amended). Whatever the writer, [write_into] of a chain issues the
    header entries [(offset_i / 4) mod 2^32] (floor division of the byte
    offset, narrowed to [u32]) and then the data, with no check of
    alignment and no error of its own: any error comes from the writer. *)
Theorem header_floor_division {E W : Type} (write_all : list byte -> M E W unit) host t w :
  write_into host write_all (TableB t) w
  = stop_at_first_failure write_all
      (map (fun i => u32_to_ne_bytes host
                       ((4 * Z.of_nat (length (blocks t))
                         + sum_Z (map size (firstn i (blocks t)))) / 4 mod 2 ^ 32))
           (seq 0 (length (blocks t)))
       ++ data_chunks host t) w.
Proof.
  rewrite (proj1 (write_into_stop write_all host)), block_chunks_table_split.
  unfold usize_mul. rewrite DATA_COUNT_blocks, header_chunks_offsets. reflexivity.
Qed.

(** C9 as stated fails: after a one-byte block and a block of [2^32]
    words, the floor of the byte offset by 4 is [2^32 + 3], and the
    header entry holds [3]. *)
Lemma header_floor_division_counterexample :
  ~ (forall host t i, (i < length (blocks t))%nat ->
       header_entry host (serialize host (TableB t)) i
       = (4 * Z.of_nat (length (blocks t)) + sum_Z (map size (firstn i (blocks t)))) / 4).
Proof.
  intros H.
  pose proof (Z2Nat.id (2 ^ 32) ltac:(lia)) as Hn. revert Hn.
  generalize (Z.to_nat (2 ^ 32)). intros n Hn.
  set (bs := [SliceB 1 [[x07]]; Huge.zero_words n; SliceB 4 []]).
  specialize (H LittleEndian (gpu_table bs) 2%nat
                ltac:(rewrite blocks_gpu_table; cbn; lia)).
  rewrite header_entries_serialize in H by (rewrite blocks_gpu_table; cbn; lia).
  rewrite blocks_gpu_table in H. subst bs.
  cbn [firstn map sum_Z fold_right length] in H.
  rewrite HugeFacts.size_zero_words, Hn in H. vm_compute in H. discriminate H.
Qed.

(** C10. Writing a chain into a [Vec<u8>] never fails, and each header
    entry read back is the [usize] word offset narrowed by [as u32], i.e.
    reduced modulo [2^32]. *)
Theorem header_entry_wraps host t :
  fst (write_into host vec_write_all (TableB t) []) = Ok tt /\
  forall i, (i < length (blocks t))%nat ->
  header_entry host (snd (write_into host vec_write_all (TableB t) [])) i
  = u32_of_usize (usize_wrap (4 * Z.of_nat (length (blocks t))
                              + sum_Z (map size (firstn i (blocks t)))) / 4).
Proof.
  rewrite (proj1 (write_into_stop vec_write_all host)), stop_vec. split; [reflexivity |].
  intros i Hi. cbn [snd app]. rewrite <- serialize_chunks, header_entries_serialize by exact Hi.
  unfold u32_of_usize, usize_wrap. symmetry. exact (word_offset_usize_wrap _).
Qed.

(** C3 (amended). For a well-formed chain whose serialized form is
    shorter than [2^64] bytes, a successful [write_into] into a buffer
    stores a header of [4 * DATA_COUNT] bytes followed by [data_size]
    bytes of data; the table's [size] is [4 * DATA_COUNT + data_size], and
    [data_size] is the sum of the sizes of its blocks. *)
Theorem total_size host t cap sw :
  wf_table t = true -> fits_usize host (TableB t) ->
  write_into host slice_write_all (TableB t) (mk_slice_writer cap []) = (Ok tt, sw) ->
  (exists header data,
     written sw = header ++ data /\
     Z.of_nat (length header) = 4 * DATA_COUNT t /\
     Z.of_nat (length data) = data_size t) /\
  size (TableB t) = 4 * DATA_COUNT t + data_size t /\
  data_size t = sum_Z (map size (blocks t)).
Proof.
  intros Hwf Hfit H. apply written_table in H.
  split; [| split; [apply (table_size_exact host t Hwf Hfit) |
                    apply (data_size_sum_exact host t Hwf Hfit)]].
  rewrite H, serialize_table. do 2 eexists. split; [reflexivity |]. split.
  - rewrite header_chunks_length, DATA_COUNT_blocks. lia.
  - symmetry. apply (data_size_exact host t Hwf Hfit).
Qed.

Lemma total_size_witness :
  let t := CrateTest.table in
  let sw := snd (write_into LittleEndian slice_write_all (TableB t) (mk_slice_writer 56 [])) in
  wf_table t = true /\ fits_usize LittleEndian (TableB t) /\
  write_into LittleEndian slice_write_all (TableB t) (mk_slice_writer 56 []) = (Ok tt, sw) /\
  ((exists header data,
      written sw = header ++ data /\
      Z.of_nat (length header) = 4 * DATA_COUNT t /\
      Z.of_nat (length data) = data_size t) /\
   size (TableB t) = 4 * DATA_COUNT t + data_size t /\
   data_size t = sum_Z (map size (blocks t))).
Proof.
  intros t sw.
  assert (Hwf : wf_table t = true) by (vm_compute; reflexivity).
  assert (Hfit : fits_usize LittleEndian (TableB t)) by (unfold fits_usize; vm_compute; reflexivity).
  assert (H : write_into LittleEndian slice_write_all (TableB t) (mk_slice_writer 56 [])
              = (Ok tt, sw)) by (vm_compute; reflexivity).
  split; [exact Hwf | split; [exact Hfit | split; [exact H |]]].
  exact (total_size LittleEndian t 56 sw Hwf Hfit H).
Defined.

(** C3 as stated fails without any write: a chain of a
    [GpuDataIter::<u64, _>] over [2^61 - 1] values ([2^64 - 8] bytes, a
    [usize] that does not wrap) followed by an empty slice has
    [data_size = 2^64 - 8] and [4 * DATA_COUNT + data_size = 2^64], while
    its [size] is [(8 + (2^64 - 8)) mod 2^64 = 0]. *)
Lemma total_size_counterexample :
  ~ (forall t, size (TableB t) = 4 * DATA_COUNT t + data_size t).
Proof.
  intros H.
  pose proof (Z2Nat.id (2 ^ 61 - 1) ltac:(lia)) as Hn. revert Hn.
  generalize (Z.to_nat (2 ^ 61 - 1)). intros n Hn.
  specialize (H (gpu_table [Huge.zero_dwords n; SliceB 4 []])).
  cbn [gpu_table fold_left append_gpu_data size data_size DATA_COUNT length] in H.
  rewrite HugeFacts.size_zero_dwords, Hn in H. vm_compute in H. discriminate H.
Qed.

(** C5 (amended). For a well-formed chain whose serialized form is
    shorter than [2^64] bytes, [write_into] into a buffer of exactly
    [4 * DATA_COUNT + data_size] bytes succeeds and fills it, and into a
    buffer one byte smaller fails with [WriteZero]. *)
Theorem exact_capacity host t :
  wf_table t = true -> fits_usize host (TableB t) ->
  write_into host slice_write_all (TableB t)
    (mk_slice_writer (Z.to_nat (4 * DATA_COUNT t + data_size t)) [])
  = (Ok tt, mk_slice_writer (Z.to_nat (4 * DATA_COUNT t + data_size t))
                            (serialize host (TableB t))) /\
  length (serialize host (TableB t)) = Z.to_nat (4 * DATA_COUNT t + data_size t) /\
  (forall cap, (cap + 1)%nat = Z.to_nat (4 * DATA_COUNT t + data_size t) ->
     fst (write_into host slice_write_all (TableB t) (mk_slice_writer cap [])) = Err WriteZero).
Proof.
  intros Hwf Hfit.
  assert (Hl : length (serialize host (TableB t)) = Z.to_nat (4 * DATA_COUNT t + data_size t)).
  { rewrite <- (proj2 (table_size_exact host t Hwf Hfit)). lia. }
  rewrite <- Hl. split; [apply write_exact_capacity | split; [reflexivity |]].
  intros cap Hcap. rewrite (proj1 (write_into_stop slice_write_all host)).
  apply stop_slice_overflow; cbn [length]; [lia |].
  rewrite <- serialize_chunks. lia.
Qed.

Lemma exact_capacity_witness :
  let t := CrateTest.table in
  wf_table t = true /\ fits_usize LittleEndian (TableB t) /\
  write_into LittleEndian slice_write_all (TableB t)
    (mk_slice_writer (Z.to_nat (4 * DATA_COUNT t + data_size t)) [])
  = (Ok tt, mk_slice_writer (Z.to_nat (4 * DATA_COUNT t + data_size t))
                            (serialize LittleEndian (TableB t))) /\
  length (serialize LittleEndian (TableB t)) = Z.to_nat (4 * DATA_COUNT t + data_size t) /\
  (forall cap, (cap + 1)%nat = Z.to_nat (4 * DATA_COUNT t + data_size t) ->
     fst (write_into LittleEndian slice_write_all (TableB t) (mk_slice_writer cap []))
     = Err WriteZero).
Proof.
  intros t.
  assert (Hwf : wf_table t = true) by (vm_compute; reflexivity).
  assert (Hfit : fits_usize LittleEndian (TableB t)) by (unfold fits_usize; vm_compute; reflexivity).
  split; [exact Hwf | split; [exact Hfit |]].
  exact (exact_capacity LittleEndian t Hwf Hfit).
Defined.

(** C5 as stated fails: the table holding [GpuDataIter::<u64, _>] over
    [2^61] values reports [4] bytes, and writing it into a 4-byte buffer
    fails. *)
Lemma exact_capacity_counterexample :
  ~ (forall host t,
       fst (write_into host slice_write_all (TableB t)
              (mk_slice_writer (Z.to_nat (4 * DATA_COUNT t + data_size t)) [])) = Ok tt).
Proof.
  intros H.
  pose proof (Z2Nat.id (2 ^ 61) ltac:(lia)) as Hn. revert Hn.
  generalize (Z.to_nat (2 ^ 61)). intros n Hn.
  specialize (H LittleEndian (gpu_table [Huge.zero_dwords n])).
  assert (Hc : Z.to_nat (4 * DATA_COUNT (gpu_table [Huge.zero_dwords n])
                         + data_size (gpu_table [Huge.zero_dwords n])) = 4%nat).
  { rewrite HugeFacts.data_size_dwords_table, Hn. reflexivity. }
  rewrite Hc in H.
  rewrite (proj1 (write_into_stop slice_write_all LittleEndian)) in H.
  rewrite stop_slice_overflow in H; [discriminate H | cbn [length]; lia |].
  rewrite <- serialize_chunks, HugeFacts.serialize_dwords_table. cbn [length].
  assert (n <> 0%nat) by (intros ->; discriminate Hn). lia.
Qed.

(** C7. A slice block over [elems] of [size_of::<T>() = s] bytes each
    (a Rust slice spans at most [isize::MAX] bytes) has [size] equal to
    [s * len], and its [write_into] is one [write_all] of the slice's
    bytes, element after element. *)
Theorem slice_block host s elems :
  elems_have_size s elems = true ->
  s * Z.of_nat (length elems) < 2 ^ 63 ->
  size (SliceB s elems) = s * Z.of_nat (length elems) /\
  Z.of_nat (length (cast_slice elems)) = s * Z.of_nat (length elems) /\
  cast_slice elems = concat elems /\
  (forall (E W : Type) (write_all : list byte -> M E W unit) w,
     write_into host write_all (SliceB s elems) w = write_all (cast_slice elems) w).
Proof.
  intros Hwf Hlt.
  destruct (slice_size_exact s elems Hwf ltac:(unfold usize_modulus; lia)) as [Hs Hl].
  split; [exact Hs | split; [exact Hl | split; [reflexivity |]]].
  intros E W write_all w. cbn [write_into]. apply bind_ret_unit.
Qed.

Lemma slice_block_witness :
  elems_have_size 4 CrateTest.y_elems = true /\
  4 * Z.of_nat (length CrateTest.y_elems) < 2 ^ 63 /\
  size (SliceB 4 CrateTest.y_elems) = 4 * Z.of_nat (length CrateTest.y_elems) /\
  Z.of_nat (length (cast_slice CrateTest.y_elems)) = 4 * Z.of_nat (length CrateTest.y_elems) /\
  cast_slice CrateTest.y_elems = concat CrateTest.y_elems /\
  (forall (E W : Type) (write_all : list byte -> M E W unit) w,
     write_into LittleEndian write_all (SliceB 4 CrateTest.y_elems) w
     = write_all (cast_slice CrateTest.y_elems) w).
Proof.
  assert (Hwf : elems_have_size 4 CrateTest.y_elems = true) by (vm_compute; reflexivity).
  assert (Hlt : 4 * Z.of_nat (length CrateTest.y_elems) < 2 ^ 63) by (vm_compute; reflexivity).
  split; [exact Hwf | split; [exact Hlt |]].
  exact (slice_block LittleEndian 4 CrateTest.y_elems Hwf Hlt).
Defined.

(** C8 (amended). For a finite sequence of values of [size_of::<T>() = s]
    bytes each, with [s * count] below [2^64], [GpuDataIter::from] keeps
    the sequence and stores [size = s * count]; [size()] returns that
    stored value; [write_into] issues one [write_all] per value in
    production order, [size] bytes in total. *)
Theorem iter_block host s items :
  elems_have_size s items = true ->
  s * Z.of_nat (length items) < usize_modulus ->
  GpuDataIter.size (GpuDataIter.from s items) = s * Z.of_nat (length items) /\
  GpuDataIter.iter (GpuDataIter.from s items) = items /\
  size (IterB s (GpuDataIter.from s items)) = GpuDataIter.size (GpuDataIter.from s items) /\
  (forall (E W : Type) (write_all : list byte -> M E W unit) w,
     write_into host write_all (IterB s (GpuDataIter.from s items)) w
     = stop_at_first_failure write_all items w) /\
  Z.of_nat (length (concat items)) = size (IterB s (GpuDataIter.from s items)).
Proof.
  intros Hwf Hlt. destruct (iter_size_exact s items Hwf Hlt) as [Hs Hl].
  split; [exact Hs | split; [reflexivity | split; [reflexivity | split]]].
  - intros E W write_all w. cbn [write_into]. apply write_items_stop.
  - cbn [size]. rewrite Hs. exact Hl.
Qed.

Lemma iter_block_witness :
  elems_have_size 8 CrateTest.z_items = true /\
  8 * Z.of_nat (length CrateTest.z_items) < usize_modulus /\
  GpuDataIter.size (GpuDataIter.from 8 CrateTest.z_items) = 8 * Z.of_nat (length CrateTest.z_items) /\
  GpuDataIter.iter (GpuDataIter.from 8 CrateTest.z_items) = CrateTest.z_items /\
  size (IterB 8 (GpuDataIter.from 8 CrateTest.z_items))
  = GpuDataIter.size (GpuDataIter.from 8 CrateTest.z_items) /\
  (forall (E W : Type) (write_all : list byte -> M E W unit) w,
     write_into LittleEndian write_all (IterB 8 (GpuDataIter.from 8 CrateTest.z_items)) w
     = stop_at_first_failure write_all CrateTest.z_items w) /\
  Z.of_nat (length (concat CrateTest.z_items))
  = size (IterB 8 (GpuDataIter.from 8 CrateTest.z_items)).
Proof.
  assert (Hwf : elems_have_size 8 CrateTest.z_items = true) by (vm_compute; reflexivity).
  assert (Hlt : 8 * Z.of_nat (length CrateTest.z_items) < usize_modulus)
    by (vm_compute; reflexivity).
  split; [exact Hwf | split; [exact Hlt |]].
  exact (iter_block LittleEndian 8 CrateTest.z_items Hwf Hlt).
Defined.

(** C8 as stated fails: over [2^61] values of [u64] the stored size is
    [8 * 2^61 mod 2^64 = 0], not [8 * 2^61]. *)
Lemma iter_block_counterexample :
  ~ (forall s items,
       elems_have_size s items = true ->
       GpuDataIter.size (GpuDataIter.from s items) = s * Z.of_nat (length items)).
Proof.
  intros H.
  pose proof (Z2Nat.id (2 ^ 61) ltac:(lia)) as Hn. revert Hn.
  generalize (Z.to_nat (2 ^ 61)). intros n Hn.
  specialize (H 8 (repeat Huge.zero_dword n)).
  unfold GpuDataIter.from, GpuDataIter.count in H. cbn [GpuDataIter.size] in H.
  rewrite repeat_length, Hn in H.
  assert (Hwf : elems_have_size 8 (repeat Huge.zero_dword n) = true).
  { unfold elems_have_size. rewrite HugeFacts.forallb_repeat; reflexivity. }
  specialize (H Hwf). vm_compute in H. discriminate H.
Qed.

(** ** Further properties of the crate *)

(** *** Helpers *)

Lemma stop_slice_partial cs cap out :
  (length out <= cap)%nat ->
  (cap < length out + length (concat cs))%nat ->
  snd (stop_at_first_failure slice_write_all cs (mk_slice_writer cap out))
  = mk_slice_writer cap (out ++ firstn (cap - length out) (concat cs)).
Proof.
  revert out. induction cs as [| c cs IH]; intros out H1 H2; simpl in *; [lia |].
  rewrite length_app in H2. unfold slice_write_all at 1. simpl.
  destruct (Nat.leb_spec (length c) (cap - length out)).
  - rewrite IH by (rewrite ?length_app; lia). rewrite <- app_assoc. f_equal. f_equal.
    rewrite firstn_app, (firstn_all2 c) by lia. rewrite length_app. f_equal. f_equal. lia.
  - rewrite firstn_app. replace (cap - length out - length c)%nat with 0%nat by lia.
    rewrite firstn_O, app_nil_r. reflexivity.
Qed.

Lemma blocks_size_exact host t :
  wf_table t = true ->
  Z.of_nat (length (concat (map (serialize host) (blocks t)))) < usize_modulus ->
  Forall (fun b => size b = Z.of_nat (length (serialize host b))) (blocks t).
Proof.
  induction t as [| h tl IH]; intros Hwf Hfit; [constructor |].
  cbn [wf_table blocks] in *. apply andb_prop in Hwf as [Hh Htl].
  rewrite map_app, concat_app, length_app in Hfit. cbn [map concat] in Hfit.
  rewrite app_nil_r in Hfit. apply Forall_app. split.
  - apply IH; [exact Htl | lia].
  - constructor; [| constructor]. apply (proj1 (size_exact host) h Hh). unfold fits_usize. lia.
Qed.

Lemma sum_sizes_lengths host l :
  Forall (fun b => size b = Z.of_nat (length (serialize host b))) l ->
  sum_Z (map size l) = Z.of_nat (length (concat (map (serialize host) l))).
Proof.
  induction 1 as [| b l Hb _ IH]; [reflexivity |].
  cbn [map sum_Z fold_right concat]. rewrite length_app. fold (sum_Z (map size l)). lia.
Qed.

Lemma sum_sizes_words l :
  forallb (fun b => size b mod 4 =? 0) l = true ->
  sum_Z (map size l) = 4 * sum_Z (map (fun b => size b / 4) l).
Proof.
  induction l as [| b l IH]; intros H; [reflexivity |].
  cbn [forallb] in H. apply andb_prop in H as [Hb H]. apply Z.eqb_eq in Hb.
  cbn [map sum_Z fold_right]. fold (sum_Z (map size l)). fold (sum_Z (map (fun b => size b / 4) l)).
  rewrite IH by exact H. pose proof (Z.div_mod (size b) 4 ltac:(lia)). lia.
Qed.

Lemma data_bytes_section host t :
  skipn (4 * length (blocks t)) (serialize host (TableB t))
  = concat (map (serialize host) (blocks t)).
Proof.
  rewrite serialize_table, skipn_app, header_chunks_length, Nat.sub_diag, skipn_O,
    skipn_all2 by (rewrite header_chunks_length; lia).
  reflexivity.
Qed.

Lemma header_section_sizes host t :
  concat (header_chunks host t (usize_mul size_of_u32 (DATA_COUNT t)))
  = concat (map (fun i => u32_to_ne_bytes host
                  ((size_of_u32 * Z.of_nat (length (map size (blocks t)))
                    + sum_Z (firstn i (map size (blocks t)))) / size_of_u32 mod 2 ^ 32))
                (seq 0 (length (map size (blocks t))))).
Proof.
  unfold usize_mul. rewrite DATA_COUNT_blocks, header_chunks_offsets, length_map.
  unfold word_offset. f_equal. apply map_ext. intros i. rewrite firstn_map. reflexivity.
Qed.

(** The bytes of a chain depend only on its blocks' sizes and bytes. *)
Lemma serialize_congr host bs1 bs2 :
  map size bs1 = map size bs2 ->
  map (serialize host) bs1 = map (serialize host) bs2 ->
  serialize host (TableB (gpu_table bs1)) = serialize host (TableB (gpu_table bs2)).
Proof.
  intros Hs Hb. rewrite !serialize_table, !header_section_sizes, !blocks_gpu_table, Hs, Hb.
  reflexivity.
Qed.

(** *** Properties *)

(** Writing any block into a Vec appends its bytes after what the Vec
    already holds and never fails, so two writes in a row give the
    concatenation of the two blocks' bytes. *)
Theorem vec_write_appends host b out :
  write_into host vec_write_all b out = (Ok tt, out ++ serialize host b).
Proof.
  rewrite (proj1 (write_into_stop vec_write_all host)), stop_vec, serialize_chunks.
  reflexivity.
Qed.

(** Writing a block into an empty slice buffer whose capacity is at least
    the block's byte length succeeds and leaves exactly those bytes. *)
Theorem slice_write_fits host b cap :
  (length (serialize host b) <= cap)%nat ->
  write_into host slice_write_all b (mk_slice_writer cap [])
  = (Ok tt, mk_slice_writer cap (serialize host b)).
Proof.
  intros H. rewrite (proj1 (write_into_stop slice_write_all host)), stop_slice_fits.
  - rewrite serialize_chunks. reflexivity.
  - rewrite <- serialize_chunks. exact H.
Qed.

Lemma slice_write_fits_witness :
  (length (serialize LittleEndian (TableB CrateTest.table)) <= 64)%nat /\
  write_into LittleEndian slice_write_all (TableB CrateTest.table) (mk_slice_writer 64 [])
  = (Ok tt, mk_slice_writer 64 (serialize LittleEndian (TableB CrateTest.table))).
Proof.
  split; [vm_compute; lia |].
  apply (slice_write_fits LittleEndian (TableB CrateTest.table) 64). vm_compute. lia.
Defined.

(** Writing a block into an empty slice buffer that is too small fails with
    [WriteZero], and the buffer keeps the bytes that did fit: the first
    [cap] bytes of the block (nothing is rolled back). *)
Theorem slice_write_too_small host b cap :
  (cap < length (serialize host b))%nat ->
  write_into host slice_write_all b (mk_slice_writer cap [])
  = (Err WriteZero, mk_slice_writer cap (firstn cap (serialize host b))).
Proof.
  intros H. rewrite (proj1 (write_into_stop slice_write_all host)).
  rewrite serialize_chunks in *.
  pose proof (stop_slice_overflow (block_chunks host b) cap [] ltac:(simpl; lia)
                ltac:(simpl; lia)) as Hf.
  pose proof (stop_slice_partial (block_chunks host b) cap [] ltac:(simpl; lia)
                ltac:(simpl; lia)) as Hs.
  destruct (stop_at_first_failure slice_write_all (block_chunks host b)
              (mk_slice_writer cap [])) as [r sw].
  simpl in Hf, Hs. rewrite Nat.sub_0_r in Hs. subst. reflexivity.
Qed.

Lemma slice_write_too_small_witness :
  (10 < length (serialize LittleEndian (TableB CrateTest.table)))%nat /\
  write_into LittleEndian slice_write_all (TableB CrateTest.table) (mk_slice_writer 10 [])
  = (Err WriteZero,
     mk_slice_writer 10 (firstn 10 (serialize LittleEndian (TableB CrateTest.table)))).
Proof.
  split; [vm_compute; lia |].
  apply (slice_write_too_small LittleEndian (TableB CrateTest.table) 10). vm_compute. lia.
Defined.

(** A slice block and a [GpuDataIter] block over the same elements (the two
    strategies the benchmark compares) report the same [size] and write the
    same bytes, so exchanging one for the other anywhere in a chain leaves
    the chain's bytes unchanged. *)
Theorem slice_iter_agree host s elems pre post :
  size (SliceB s elems) = size (IterB s (GpuDataIter.from s elems)) /\
  serialize host (SliceB s elems) = serialize host (IterB s (GpuDataIter.from s elems)) /\
  serialize host (TableB (gpu_table (pre ++ SliceB s elems :: post)))
  = serialize host (TableB (gpu_table (pre ++ IterB s (GpuDataIter.from s elems) :: post))).
Proof.
  assert (Hsz : size (SliceB s elems) = size (IterB s (GpuDataIter.from s elems))).
  { cbn [size]. unfold GpuDataIter.from, GpuDataIter.count, usize_mul, usize_wrap. simpl.
    rewrite Z.mul_mod_idemp_r by (unfold usize_modulus; lia). reflexivity. }
  assert (Hser : serialize host (SliceB s elems)
                 = serialize host (IterB s (GpuDataIter.from s elems))).
  { rewrite !serialize_chunks. cbn [block_chunks concat]. rewrite app_nil_r. reflexivity. }
  split; [exact Hsz | split; [exact Hser |]].
  apply serialize_congr; rewrite !map_app; cbn [map]; congruence.
Qed.

(** The header of a chain (its first [4*N] bytes) depends only on the sizes
    its blocks report: two chains whose blocks have the same sizes, in
    order, have the same header bytes, whatever their data. *)
Theorem header_depends_on_sizes host bs1 bs2 :
  map size bs1 = map size bs2 ->
  firstn (4 * length bs1) (serialize host (TableB (gpu_table bs1)))
  = firstn (4 * length bs2) (serialize host (TableB (gpu_table bs2))).
Proof.
  intros Hs.
  assert (Hhd : forall bs, firstn (4 * length bs) (serialize host (TableB (gpu_table bs)))
                = concat (header_chunks host (gpu_table bs)
                            (usize_mul size_of_u32 (DATA_COUNT (gpu_table bs))))).
  { intros bs. rewrite serialize_table, firstn_app, header_chunks_length, blocks_gpu_table,
      Nat.sub_diag, firstn_O, app_nil_r, firstn_all2 by (rewrite header_chunks_length,
      blocks_gpu_table; lia). reflexivity. }
  rewrite !Hhd, !header_section_sizes, !blocks_gpu_table, Hs. reflexivity.
Qed.

Lemma header_depends_on_sizes_witness :
  let bs1 := [SliceB 4 [[x01; x00; x00; x00]]; SliceB 4 []] in
  let bs2 := [IterB 4 (GpuDataIter.from 4 [[x02; x00; x00; x00]]); TableB EmptyGpuTable] in
  map size bs1 = map size bs2 /\
  firstn (4 * length bs1) (serialize LittleEndian (TableB (gpu_table bs1)))
  = firstn (4 * length bs2) (serialize LittleEndian (TableB (gpu_table bs2))).
Proof.
  cbv zeta. split; [vm_compute; reflexivity |].
  apply header_depends_on_sizes. vm_compute. reflexivity.
Defined.

(** Appending a block to a chain shifts each earlier header entry by one
    word (mod [2^32]), because the header grows by one entry, and the data
    section becomes the old data section followed by the new block's bytes. *)
Theorem append_shifts_header host bs b :
  (forall i, (i < length bs)%nat ->
     header_entry host (serialize host (TableB (gpu_table (bs ++ [b])))) i
     = (header_entry host (serialize host (TableB (gpu_table bs))) i + 1) mod 2 ^ 32) /\
  skipn (4 * length (bs ++ [b])) (serialize host (TableB (gpu_table (bs ++ [b]))))
  = skipn (4 * length bs) (serialize host (TableB (gpu_table bs))) ++ serialize host b.
Proof.
  split.
  - intros i Hi.
    rewrite !header_entries_serialize by (rewrite blocks_gpu_table, ?length_app; simpl; lia).
    rewrite !blocks_gpu_table, firstn_app.
    replace (i - length bs)%nat with 0%nat by lia. rewrite firstn_O, app_nil_r.
    rewrite Z.add_mod_idemp_l by lia. f_equal.
    unfold size_of_u32. rewrite length_app. cbn [length].
    rewrite <- (Z.div_add _ 1 4) by lia. f_equal. lia.
  - pose proof (data_bytes_section host (gpu_table (bs ++ [b]))) as H1.
    pose proof (data_bytes_section host (gpu_table bs)) as H2.
    rewrite blocks_gpu_table in H1, H2. rewrite H1, H2, map_app, concat_app. cbn [map concat]. rewrite app_nil_r.
    reflexivity.
Qed.

Lemma append_shifts_header_witness :
  (0 < length CrateTest.blocks_list)%nat /\
  header_entry LittleEndian
    (serialize LittleEndian (TableB (gpu_table (CrateTest.blocks_list ++ [SliceB 4 []])))) 0
  = (header_entry LittleEndian (serialize LittleEndian (TableB (gpu_table CrateTest.blocks_list))) 0
     + 1) mod 2 ^ 32.
Proof.
  split; [vm_compute; lia |].
  apply (proj1 (append_shifts_header LittleEndian CrateTest.blocks_list (SliceB 4 []))).
  vm_compute. lia.
Defined.

Lemma mod_add3 a b c m :
  m <> 0 -> (a mod m + b mod m + c) mod m = (a + b + c) mod m.
Proof.
  intros Hm. rewrite <- Z.add_assoc, Z.add_mod_idemp_l by exact Hm.
  rewrite Z.add_assoc, (Z.add_comm a (b mod m)), <- Z.add_assoc, Z.add_mod_idemp_l by exact Hm.
  f_equal. lia.
Qed.

Lemma skipn_app_exact {A} (a b : list A) n : skipn (length a + n) (a ++ b) = skipn n b.
Proof. induction a as [| x a IH]; [reflexivity | exact IH]. Qed.

(** The crate test's read-back: in a chain whose blocks are well formed and
    each a whole number of 32-bit words, with fewer than [2^34] bytes in
    all, header entry [i] read back in native byte order is the word index
    where block [i] starts, and reading [size] bytes from there gives back
    exactly the bytes of block [i]. *)
Theorem header_locates_blocks host bs i b :
  wf_table (gpu_table bs) = true ->
  forallb (fun b => size b mod 4 =? 0) bs = true ->
  Z.of_nat (length (serialize host (TableB (gpu_table bs)))) < 2 ^ 34 ->
  nth_error bs i = Some b ->
  firstn (Z.to_nat (size b))
    (skipn (4 * Z.to_nat (header_entry host (serialize host (TableB (gpu_table bs))) i))
       (serialize host (TableB (gpu_table bs))))
  = serialize host b.
Proof.
  intros Hwf Hal Hlen Hnth.
  pose proof (nth_error_split bs i Hnth) as (l1 & l2 & Hbs & Hl1).
  assert (Hi : (i < length bs)%nat) by (rewrite Hbs, length_app; simpl; lia).
  pose proof (serialize_table host (gpu_table bs)) as Hser.
  rewrite blocks_gpu_table in Hser.
  pose proof (header_entries_serialize host (gpu_table bs) i
                ltac:(rewrite blocks_gpu_table; exact Hi)) as Hent.
  set (ser := serialize host (TableB (gpu_table bs))) in *.
  set (Hd := concat (header_chunks host (gpu_table bs)
                       (usize_mul size_of_u32 (DATA_COUNT (gpu_table bs))))) in *.
  assert (HHd : length Hd = (4 * length bs)%nat)
    by (unfold Hd; rewrite header_chunks_length, blocks_gpu_table; reflexivity).
  assert (Hfit : Z.of_nat (length (concat (map (serialize host) (blocks (gpu_table bs)))))
                 < usize_modulus).
  { rewrite blocks_gpu_table. unfold usize_modulus.
    assert (length ser = length Hd + length (concat (map (serialize host) bs)))%nat
      by (rewrite Hser, length_app; reflexivity). lia. }
  pose proof (blocks_size_exact host (gpu_table bs) Hwf Hfit) as Hall.
  rewrite blocks_gpu_table, Hbs in Hall. apply Forall_app in Hall as [Hall1 Hall2].
  inversion Hall2 as [| b' l2' Hb Hall3]; subst b' l2'.
  rewrite Hbs, forallb_app in Hal. apply andb_prop in Hal as [Hal1 _].
  set (C1 := concat (map (serialize host) l1)) in *.
  pose proof (sum_sizes_lengths host l1 Hall1) as HP. fold C1 in HP.
  pose proof (sum_sizes_words l1 Hal1) as HW.
  set (k := sum_Z (map (fun b => size b / 4) l1)) in *.
  assert (Hdata : concat (map (serialize host) bs) = C1 ++ serialize host b
                   ++ concat (map (serialize host) l2))
    by (rewrite Hbs, map_app, concat_app; reflexivity).
  assert (Hlen2 : length ser = (length Hd + length C1 + length (serialize host b)
                                + length (concat (map (serialize host) l2)))%nat)
    by (rewrite Hser, Hdata, !length_app; lia).
  rewrite Hent, blocks_gpu_table, Hbs, firstn_app, Hl1, Nat.sub_diag, firstn_O, app_nil_r,
    (firstn_all2 l1) by lia.
  rewrite <- Hbs, HW. unfold size_of_u32.
  replace (4 * Z.of_nat (length bs) + 4 * k) with ((Z.of_nat (length bs) + k) * 4) by lia.
  rewrite Z.div_mul by lia. rewrite Z.mod_small by lia.
  replace (4 * Z.to_nat (Z.of_nat (length bs) + k))%nat with (length Hd + length C1)%nat by lia.
  rewrite Hser, Hdata, skipn_app_exact.
  rewrite <- (Nat.add_0_r (length C1)), skipn_app_exact, skipn_O.
  rewrite Hb, Nat2Z.id, <- (Nat.add_0_r (length (serialize host b))), firstn_app_2,
    firstn_O, app_nil_r.
  reflexivity.
Qed.

Lemma header_locates_blocks_witness :
  wf_table (gpu_table CrateTest.blocks_list) = true /\
  forallb (fun b => size b mod 4 =? 0) CrateTest.blocks_list = true /\
  Z.of_nat (length (serialize LittleEndian (TableB (gpu_table CrateTest.blocks_list)))) < 2 ^ 34 /\
  nth_error CrateTest.blocks_list 1 = Some (nth 1 CrateTest.blocks_list (SliceB 4 [])) /\
  firstn (Z.to_nat (size (nth 1 CrateTest.blocks_list (SliceB 4 []))))
    (skipn (4 * Z.to_nat (header_entry LittleEndian
                             (serialize LittleEndian (TableB (gpu_table CrateTest.blocks_list))) 1))
       (serialize LittleEndian (TableB (gpu_table CrateTest.blocks_list))))
  = serialize LittleEndian (nth 1 CrateTest.blocks_list (SliceB 4 [])).
Proof.
  split; [vm_compute; reflexivity |].
  split; [vm_compute; reflexivity |].
  split; [vm_compute; reflexivity |].
  split; [vm_compute; reflexivity |].
  apply header_locates_blocks; vm_compute; reflexivity.
Defined.

(** Appending a block grows a chain's [size] by one 4-byte header entry
    plus the block's [size], in wrapping [usize] arithmetic: the size of
    the longer chain is computed from the shorter one alone. *)
Theorem append_size t b :
  size (TableB (append_gpu_data t b))
  = usize_add (size (TableB t)) (usize_add size_of_u32 (size b)).
Proof.
  assert (HM : usize_modulus <> 0) by (unfold usize_modulus; lia).
  destruct t as [| h tl]; cbn [append_gpu_data size data_size DATA_COUNT];
    unfold usize_add, usize_mul, usize_wrap, size_of_u32;
    rewrite ?Z.add_mod_idemp_l, ?Z.add_mod_idemp_r by exact HM.
  - f_equal; lia.
  - rewrite (mod_add3 _ _ _ _ HM). f_equal. lia.
Qed.

(** Two consecutive header entries differ by the words of the block between
    them: when the blocks before block [i] are each a whole number of
    words, entry [i+1] is entry [i] plus [size / 4] of block [i], mod
    [2^32] (this holds also when the offsets wrap). *)
Theorem header_entry_step host bs i b :
  nth_error bs i = Some b ->
  (S i < length bs)%nat ->
  forallb (fun b => size b mod 4 =? 0) (firstn i bs) = true ->
  header_entry host (serialize host (TableB (gpu_table bs))) (S i)
  = (header_entry host (serialize host (TableB (gpu_table bs))) i + size b / 4) mod 2 ^ 32.
Proof.
  intros Hnth Hi Hal.
  pose proof (nth_error_split bs i Hnth) as (l1 & l2 & Hbs & Hl1).
  rewrite !header_entries_serialize by (rewrite blocks_gpu_table; lia).
  rewrite !blocks_gpu_table.
  assert (Hf : firstn i bs = l1)
    by (rewrite Hbs, firstn_app, Hl1, Nat.sub_diag, firstn_O, app_nil_r;
        apply firstn_all2; lia).
  assert (Hf' : firstn (S i) bs = l1 ++ [b]).
  { rewrite Hbs, firstn_app, Hl1, (firstn_all2 l1) by lia.
    replace (S i - i)%nat with 1%nat by lia. reflexivity. }
  rewrite Hf, Hf'. rewrite Hf in Hal.
  rewrite map_app, sum_Z_app, (sum_sizes_words l1 Hal). cbn [map sum_Z fold_right].
  rewrite Z.add_mod_idemp_l by lia. f_equal. unfold size_of_u32.
  replace (4 * Z.of_nat (length bs)
           + (4 * sum_Z (map (fun b => size b / 4) l1) + (size b + 0)))
    with (size b + (Z.of_nat (length bs) + sum_Z (map (fun b => size b / 4) l1)) * 4) by lia.
  replace (4 * Z.of_nat (length bs) + 4 * sum_Z (map (fun b => size b / 4) l1))
    with ((Z.of_nat (length bs) + sum_Z (map (fun b => size b / 4) l1)) * 4) by lia.
  rewrite Z.div_add, Z.div_mul by lia. lia.
Qed.

Lemma header_entry_step_witness :
  nth_error CrateTest.blocks_list 1 = Some (nth 1 CrateTest.blocks_list (SliceB 4 [])) /\
  header_entry LittleEndian (serialize LittleEndian (TableB (gpu_table CrateTest.blocks_list))) 2
  = (header_entry LittleEndian (serialize LittleEndian (TableB (gpu_table CrateTest.blocks_list))) 1
     + size (nth 1 CrateTest.blocks_list (SliceB 4 [])) / 4) mod 2 ^ 32.
Proof.
  split; [vm_compute; reflexivity |].
  apply header_entry_step; vm_compute; [reflexivity | lia | reflexivity].
Defined.
